(** * A model of the BDM chatbot backend ([backend/run.py])

    The request path of the backend is embedded as a small state-and-exception
    monad over a [World] that holds the persistent chat store and a trace of
    the calls made to external collaborators (retrieval chain, persistence
    service, logger).  Everything the program cannot decide by itself (the
    clock, the answer of the retrieval chain, whether a persistence call
    fails) is supplied per request by an [Env] record. *)

From stdpp Require Import base strings list gmap.
From Stdlib Require Import ZArith Lia.

Local Open Scope string_scope.
Local Open Scope Z_scope.

(** ** Data model *)

(** One entry of a chat history: the dict built at lines 100-104. *)
Record Exchange := mkExchange {
  timestamp : string;
  user_message : string;
  bot_response : string
}.

(** The value of [request.json]: what the body of a request parses to.  An
    object is one of the request schema, whose fields are strings; any other
    JSON value can arrive in its place. *)
Local Unset Elimination Schemes.
Inductive Json :=
| JNull
| JBool (b : bool)
| JInt (z : Z)
| JFloat (literal : string)
| JString (s : string)
| JArray (items : list Json)
| JObject (fields : gmap string string).
Local Set Elimination Schemes.

(** A Python exception: its class and [str(e)]. *)
Record Exn := mkExn { exn_class : string; exn_str : string }.

Inductive Level := INFO | WARNING | ERROR.

(** Calls that leave the process, in the order they are made. *)
Inductive Event :=
| EvInvoke (question : string) (chat_history : list Exchange)
| EvRetrieve (chat_id : string)
| EvStore (chat_id : string) (chat_history : list Exchange)
| EvCreateClient (url key : string)
| EvChatGroq
| EvReloadVectorStore
| EvFromLlm
| EvLog (lvl : Level) (msg : string).

Record World := mkWorld {
  db : gmap string (list Exchange);
  trace : list Event
}.

(** ** The monad: state passing with Python exceptions *)

Inductive Outcome (A : Type) :=
| Ret (a : A)
| Raise (e : Exn).
Arguments Ret {A} a.
Arguments Raise {A} e.

Definition M (A : Type) : Type := World -> Outcome A * World.

Definition ret {A} (a : A) : M A := fun w => (Ret a, w).

Definition raise {A} (e : Exn) : M A := fun w => (Raise e, w).

Definition bind {A B} (c : M A) (k : A -> M B) : M B :=
  fun w =>
    match c w with
    | (Ret a, w') => k a w'
    | (Raise e, w') => (Raise e, w')
    end.

(** [try: c except Exception as e: h e] *)
Definition try_except {A} (c : M A) (h : Exn -> M A) : M A :=
  fun w =>
    match c w with
    | (Ret a, w') => (Ret a, w')
    | (Raise e, w') => h e w'
    end.

Notation "x <- c ;; k" := (bind c (fun x => k))
  (at level 63, c at next level, right associativity).
Notation "c ;;; k" := (bind c (fun _ => k))
  (at level 63, right associativity).

Definition emit (ev : Event) : M unit :=
  fun w => (Ret tt, mkWorld (db w) (trace w ++ [ev])%list).

Definition log (lvl : Level) (msg : string) : M unit := emit (EvLog lvl msg).

(** Lift the outcome of an external call into the monad. *)
Definition lift {A} (o : Outcome A) : M A := fun w => (o, w).

(** ** Python helpers *)

(** [l[start:]] with Python's treatment of negative and out-of-range bounds. *)
Definition py_slice_from {A} (start : Z) (l : list A) : list A :=
  let n := Z.of_nat (length l) in
  let s := if start <? 0 then Z.max (start + n) 0 else Z.min start n in
  drop (Z.to_nat s) l.

(** [not v] for a value that is [None] or a [str]. *)
Definition py_not (v : option string) : bool :=
  match v with
  | None => true
  | Some s => bool_decide (s = "")
  end.

(** [v or []] for a value that is [None] or a list. *)
Definition py_or_empty {A} (v : option (list A)) : list A :=
  match v with
  | None => []
  | Some [] => []
  | Some l => l
  end.

(** [type(v).__name__] *)
Definition py_type_name (v : Json) : string :=
  match v with
  | JNull => "NoneType"
  | JBool _ => "bool"
  | JInt _ => "int"
  | JFloat _ => "float"
  | JString _ => "str"
  | JArray _ => "list"
  | JObject _ => "dict"
  end.

(** [v.get(k)]: a dict answers with the entry or [None]; no other value has
    the method. *)
Definition py_get (v : Json) (k : string) : M (option string) :=
  match v with
  | JObject fields => ret (fields !! k)
  | _ =>
      raise (mkExn "AttributeError"
               ("'" +:+ py_type_name v +:+ "' object has no attribute 'get'"))
  end.

(** [d[k]] on a dict: raises [KeyError]. *)
Definition getitem (d : gmap string string) (k : string) : M string :=
  match d !! k with
  | Some v => ret v
  | None => raise (mkExn "KeyError" ("'" +:+ k +:+ "'"))
  end.

(** ** What the outside world decides for one request *)

Record Env := mkEnv {
  (** [datetime.now().strftime("%Y-%m-%d %H:%M:%S")] *)
  now : string;
  (** [str(uuid.uuid4())] *)
  uuid4 : string;
  (** [retrieval_chain.invoke({"question": q, "chat_history": h})]: the
      response dict, or the exception it raises. *)
  invoke : string -> list Exchange -> Outcome (gmap string string);
  (** Failure of the persistence service on a write / on a read. *)
  store_error : option Exn;
  retrieve_error : option Exn
}.

(** ** Persistence ([app.data]) *)

(** Modelled from the spec: [store_chat_history] lives in [app/data.py],
    which is not part of the sources at hand.  It "persists the full updated
    list" for the session; a failure of the service surfaces as an exception
    and leaves the stored list as it was. *)
Definition store_chat_history (env : Env) (chat_id : string)
    (chat_history : list Exchange) : M unit :=
  emit (EvStore chat_id chat_history) ;;;
  match store_error env with
  | Some e => raise e
  | None => fun w => (Ret tt, mkWorld (<[chat_id := chat_history]> (db w)) (trace w))
  end.

(** Modelled from the spec: [retrieve_chat_history] lives in [app/data.py],
    which is not part of the sources at hand.  It "fetches the stored exchange
    list for a session; returns empty sequence if none exists". *)
Definition retrieve_chat_history (env : Env) (chat_id : string)
    : M (option (list Exchange)) :=
  emit (EvRetrieve chat_id) ;;;
  match retrieve_error env with
  | Some e => raise e
  | None => fun w => (Ret (Some (default [] (db w !! chat_id))), w)
  end.

(** ** The chat path (lines 77-115) *)

Definition APOLOGY : string :=
  "Sorry, I encountered an error while processing your request.".

Definition generate_chatbot_response (env : Env) (user_message : string)
    (chat_history : list Exchange) : M string :=
  try_except
    (emit (EvInvoke user_message chat_history) ;;;
     response <- lift (invoke env user_message chat_history) ;;
     getitem response "answer")
    (fun e =>
       log ERROR ("Error generating chatbot response: " +:+ exn_str e) ;;;
       ret APOLOGY).

Definition start_new_chat (env : Env) : M string :=
  let chat_id := uuid4 env in
  log INFO ("New chat session started with ID: " +:+ chat_id) ;;;
  ret chat_id.

Definition HISTORY_LIMIT : Z := 50.

(** Line 100 appends to the list object the caller passed in; line 107 then
    rebinds the name to a new, sliced list, which is the one written and
    returned.  The only caller, [chat], drops its own reference, so the
    appended entry on the old object is never looked at again. *)

Definition process_user_message (env : Env) (chat_id user_message : string)
    (chat_history : list Exchange) : M (string * list Exchange) :=
  bot_response <- generate_chatbot_response env user_message chat_history ;;
  let timestamp := now env in
  let chat_history :=
    (chat_history ++ [mkExchange timestamp user_message bot_response])%list in
  let chat_history := py_slice_from (- HISTORY_LIMIT) chat_history in
  try_except
    (store_chat_history env chat_id chat_history ;;;
     log INFO ("Chat history updated for chat_id: " +:+ chat_id))
    (fun e =>
       log ERROR ("Error storing chat history for chat_id " +:+ chat_id +:+ ": "
                  +:+ exn_str e)) ;;;
  ret (bot_response, chat_history).

(** ** The Flask routes (lines 120-150) *)

Inductive Body :=
| JChatId (chat_id : string)
| JChat (bot_response : string) (chat_history : list Exchange)
| JError (error : string)
| ErrorPage.   (* the server's own page for a view that raised, not JSON *)

(** What a view function returns: [(jsonify(body), status)]. *)
Record Response := mkResponse { body : Body; status : Z }.

Definition REQUIRED : string := "chat_id and user_message are required".
Definition INTERNAL : string := "An error occurred while processing your request.".

Definition start_chat (env : Env) : M Response :=
  chat_id <- start_new_chat env ;;
  ret (mkResponse (JChatId chat_id) 200).

(** [body] is what [request.json] gives at line 129.  Lines 129-131 run
    before the [try] of line 137: an exception of [data.get] leaves the
    view. *)
Definition chat (env : Env) (body : Json) : M Response :=
  let data := body in
  chat_id <- py_get data "chat_id" ;;
  user_message <- py_get data "user_message" ;;
  if py_not chat_id || py_not user_message then
    log WARNING "chat_id or user_message is missing in request." ;;;
    ret (mkResponse (JError REQUIRED) 400)
  else
    let chat_id := default "" chat_id in
    let user_message := default "" user_message in
    try_except
      (stored <- retrieve_chat_history env chat_id ;;
       let chat_history := py_or_empty stored in
       (if bool_decide (chat_history = [])
        then log WARNING ("No chat history found for chat_id: " +:+ chat_id
                          +:+ ". Starting a new session.")
        else ret tt) ;;;
       result <- process_user_message env chat_id user_message chat_history ;;
       let '(bot_response, updated_chat_history) := result in
       ret (mkResponse (JChat bot_response updated_chat_history) 200))
      (fun e =>
         log ERROR ("Error in chat route: " +:+ exn_str e) ;;;
         ret (mkResponse (JError INTERNAL) 500)).

(** ** The process: module initialisation, then requests *)

(** What the outside world decides at import time. *)
Record Boot := mkBoot {
  (** [os.environ] once [load_dotenv()] has run *)
  environ : gmap string string;
  create_client_error : option Exn;
  ChatGroq_error : option Exn;
  vector_store_error : option Exn;
  from_llm_error : option Exn
}.

Definition fail_with (err : option Exn) : M unit :=
  match err with
  | Some e => raise e
  | None => ret tt
  end.

Definition NOT_SET : string :=
  "Supabase URL and key are not set in the environment variables.".

(** [load_model()] as it runs at line 69, single-threaded, with the global
    still [None]; the interleaved runs are in [LoadModel] below. *)
Definition load_model_at_import (boot : Boot) : M unit :=
  try_except
    (emit EvChatGroq ;;;
     fail_with (ChatGroq_error boot) ;;;
     log INFO "Model loaded successfully.")
    (fun e =>
       log ERROR ("Error loading model: " +:+ exn_str e) ;;;
       raise e).

(** Lines 24-75: the module body up to the point where the routes exist. *)
Definition startup (boot : Boot) : M unit :=
  let SUPABASE_URL := environ boot !! "SUPABASE_URL" in
  let SUPABASE_KEY := environ boot !! "SUPABASE_KEY" in
  (if py_not SUPABASE_URL || py_not SUPABASE_KEY then
     log ERROR NOT_SET ;;;
     raise (mkExn "ValueError" NOT_SET)
   else ret tt) ;;;
  emit (EvCreateClient (default "" SUPABASE_URL) (default "" SUPABASE_KEY)) ;;;
  fail_with (create_client_error boot) ;;;
  try_except
    (load_model_at_import boot ;;;
     emit EvReloadVectorStore ;;;
     fail_with (vector_store_error boot) ;;;
     emit EvFromLlm ;;;
     fail_with (from_llm_error boot) ;;;
     log INFO "Vector store and retrieval chain initialized.")
    (fun e =>
       log ERROR ("Error initializing model or vector store: " +:+ exn_str e) ;;;
       raise e).

Inductive Request :=
| GetStartChat
| PostChat (body : Json).

Definition handle (env : Env) (req : Request) : M Response :=
  match req with
  | GetStartChat => start_chat env
  | PostChat body => chat env body
  end.

(** Requests served one after the other, each with its own [Env].  A view
    that raises does not stop the server: the request is answered with the
    server's error page and status 500, and the next one is served. *)
Fixpoint serve (reqs : list (Env * Request)) : M (list Response) :=
  match reqs with
  | [] => ret []
  | (env, req) :: rest =>
      resp <- try_except (handle env req)
                (fun _ => ret (mkResponse ErrorPage 500)) ;;
      resps <- serve rest ;;
      ret (resp :: resps)
  end.

(** The routes only exist, and requests are only served, once the module
    body has run to its end. *)
Definition run_process (boot : Boot) (reqs : list (Env * Request))
    : M (list Response) :=
  startup boot ;;;
  serve reqs.

(** The JSON body of a send-message request. *)
Definition message (chat_id user_message : string) : gmap string string :=
  <["chat_id" := chat_id]> {["user_message" := user_message]}.

(** The answer and the history a /chat response carries. *)
Definition answer_of (resp : Response) : string :=
  match body resp with
  | JChat bot_response _ => bot_response
  | _ => ""
  end.

Definition history_of (resp : Response) : list Exchange :=
  match body resp with
  | JChat _ chat_history => chat_history
  | _ => []
  end.

(** The exchange a send-message operation adds: the clock of the request, the
    text sent and the answer the caller got back. *)
Definition exchange_of (op : Env * string) (resp : Response) : Exchange :=
  mkExchange (now op.1) op.2 (answer_of resp).

Definition send_all (chat_id : string) (ops : list (Env * string))
    : list (Env * Request) :=
  map (fun op => (op.1, PostChat (JObject (message chat_id op.2)))) ops.

(** What [retrieve_chat_history] would hand out for a session. *)
Definition stored (w : World) (chat_id : string) : list Exchange :=
  default [] (db w !! chat_id).

(** Events that reach the retrieval chain or the persistence service. *)
Definition is_external (ev : Event) : bool :=
  match ev with
  | EvInvoke _ _ | EvRetrieve _ | EvStore _ _ => true
  | _ => false
  end.

(** The events a computation added to the trace of [w]. *)
Definition emitted (w w' : World) : list Event :=
  drop (length (trace w)) (trace w').

Definition is_invoke (ev : Event) : bool :=
  match ev with
  | EvInvoke _ _ => true
  | _ => false
  end.

(** The text the caller gets for a question: the chain's answer, or the
    apology when the chain raised or its response has no answer. *)
Definition reply (env : Env) (question : string) (chat_history : list Exchange)
    : string :=
  match invoke env question chat_history with
  | Ret response => default APOLOGY (response !! "answer")
  | Raise _ => APOLOGY
  end.

(** The history a send-message operation hands back and writes. *)
Definition extended (env : Env) (question : string) (chat_history : list Exchange)
    : list Exchange :=
  py_slice_from (- HISTORY_LIMIT)
    (chat_history ++ [mkExchange (now env) question (reply env question chat_history)]).

(** The body is a JSON object. *)
Definition is_object (v : Json) : bool :=
  match v with
  | JObject _ => true
  | _ => false
  end.

(** A request field that is absent, or present and empty. *)
Definition missing_or_empty (v : option string) : Prop :=
  v = None \/ v = Some "".

(** The same request environment with another fate for the write. *)
Definition with_store_error (err : option Exn) (env : Env) : Env :=
  mkEnv (now env) (uuid4 env) (invoke env) err (retrieve_error env).

(** The calls to the chain and to the persistence service among [evs]. *)
Definition external_calls (evs : list Event) : list Event :=
  List.filter is_external evs.

(** A send-message operation that runs to its end: a text was sent, and the
    persistence service serves both the read and the write. *)
Definition goes_through (op : Env * string) : Prop :=
  op.2 <> "" /\ retrieve_error op.1 = None /\ store_error op.1 = None.

(** No stored history is longer than the limit. *)
Definition bounded (d : gmap string (list Exchange)) : Prop :=
  map_Forall (fun _ h => (length h <= 50)%nat) d.

(** A request that does not name the session [chat_id]. *)
Definition elsewhere (chat_id : string) (req : Request) : Prop :=
  match req with
  | GetStartChat => True
  | PostChat (JObject data) => data !! "chat_id" <> Some chat_id
  | PostChat _ => True
  end.

(** The first collaborator that fails while the module body runs. *)
Definition first_failure (boot : Boot) : option Exn :=
  create_client_error boot ∪ ChatGroq_error boot
    ∪ vector_store_error boot ∪ from_llm_error boot.

(** ** Sample requests and environments *)

Definition world0 : World := mkWorld ∅ [].

Definition boom : Exn := mkExn "RuntimeError" "connection reset".

(** The chain answers. *)
Definition env_up : Env :=
  mkEnv "2024-05-01 10:00:00" "0b0e6a4e-6d0c-4c57-9d0e-3a1a2f0c9d11"
    (fun q _ => Ret {["answer" := "About " +:+ q]}) None None.


(** The chain answers, the write fails. *)
Definition env_store_down : Env :=
  mkEnv "2024-05-01 10:00:02" "2d9a1b63-3b5a-4e1c-9b64-6e206b1f8c33"
    (fun q _ => Ret {["answer" := "About " +:+ q]}) (Some boom) None.

Definition boot_no_key : Boot :=
  mkBoot {["SUPABASE_URL" := "https://db.example"]} None None None None.

Definition boot_ok : Boot :=
  mkBoot (<["SUPABASE_KEY" := "secret"]> {["SUPABASE_URL" := "https://db.example"]})
    None None None None.

(** The model cannot be built. *)
Definition boot_no_model : Boot :=
  mkBoot (environ boot_ok) None (Some boom) None None.

(** The chain responds, without an answer. *)
Definition env_no_answer : Env :=
  mkEnv "2024-05-01 10:00:03" "3e0b2c74-4c6b-4f2d-8c75-7f317c209d44"
    (fun _ _ => Ret {["source_documents" := "none"]}) None None.

(** The history cannot be read. *)
Definition env_read_down : Env :=
  mkEnv "2024-05-01 10:00:04" "4f1c3d85-5d7c-4a3e-9d86-8a428d31ae55"
    (fun q _ => Ret {["answer" := "About " +:+ q]}) None (Some boom).

(** A session with one exchange on record. *)
Definition world1 : World :=
  mkWorld {["abc" := [mkExchange "2024-04-30 09:00:00" "first" "About first"]]} [].

(** ** [load_model] under interleaving (lines 45-65)

    Several calls of [load_model] run at once; a scheduler picks which call
    takes its next step.  A step is one access to the global [model] or to
    [model_lock], which is the granularity at which the interpreter lets
    threads interleave. *)

Module LoadModel.

Local Open Scope nat_scope.

(** A [ChatGroq] object is identified by its rank among the objects the
    process has constructed. *)
Abbreviation instance := nat (only parsing).
Abbreviation call := nat (only parsing).

(** Where a call stands. *)
Inductive pc :=
| AtCheck                  (* line 52, about to test the global without the lock *)
| AtAcquire                (* line 54, about to enter [with model_lock] *)
| AtRecheck                (* line 55, lock held, about to test the global again *)
| AtConstruct              (* line 56, lock held, about to call [ChatGroq(...)] *)
| AtAssign (h : instance)  (* line 56, lock held, about to bind the global *)
| AtRelease                (* leaving the [with] block normally *)
| AtReleaseExc (e : Exn)   (* leaving the [with] block on an exception *)
| AtReturn                 (* line 65, about to read the global *)
| Returned (r : option instance)
| Raised (e : Exn).        (* lines 62-64, logged and raised again *)

Record state := mkState {
  model : option instance;
  model_lock : option call;   (* the call holding the lock *)
  constructed : nat;          (* [ChatGroq] objects built so far *)
  calls : list pc
}.

Inductive action :=
| Check (present : bool)
| Acquire
| Recheck (present : bool)
| Construct (ok : bool)
| Assign (h : instance)
| Release
| Return (r : option instance).

Definition goto (c : call) (p : pc) (s : state) : state :=
  mkState (model s) (model_lock s) (constructed s) (<[c := p]> (calls s)).

(** One step of call [c]; [ctor] is what the constructor does should this
    step be the constructor call.  [None]: the call cannot move (it waits
    for the lock, or it is over, or there is no such call). *)
Definition step (c : call) (ctor : option Exn) (s : state)
    : option (action * state) :=
  match calls s !! c with
  | Some AtCheck =>
      match model s with
      | None => Some (Check false, goto c AtAcquire s)
      | Some _ => Some (Check true, goto c AtReturn s)
      end
  | Some AtAcquire =>
      match model_lock s with
      | None =>
          Some (Acquire,
                goto c AtRecheck (mkState (model s) (Some c) (constructed s) (calls s)))
      | Some _ => None
      end
  | Some AtRecheck =>
      match model s with
      | None => Some (Recheck false, goto c AtConstruct s)
      | Some _ => Some (Recheck true, goto c AtRelease s)
      end
  | Some AtConstruct =>
      match ctor with
      | None =>
          Some (Construct true,
                goto c (AtAssign (constructed s))
                  (mkState (model s) (model_lock s) (S (constructed s)) (calls s)))
      | Some e => Some (Construct false, goto c (AtReleaseExc e) s)
      end
  | Some (AtAssign h) =>
      Some (Assign h,
            goto c AtRelease (mkState (Some h) (model_lock s) (constructed s) (calls s)))
  | Some AtRelease =>
      Some (Release,
            goto c AtReturn (mkState (model s) None (constructed s) (calls s)))
  | Some (AtReleaseExc e) =>
      Some (Release,
            goto c (Raised e) (mkState (model s) None (constructed s) (calls s)))
  | Some AtReturn => Some (Return (model s), goto c (Returned (model s)) s)
  | Some (Returned _) | Some (Raised _) | None => None
  end.

(** A schedule names, step by step, the call that moves.  The run records
    each step taken with the state it was taken in. *)
Definition schedule := list (call * option Exn).
Definition history := list (call * action * state).

Fixpoint exec (sched : schedule) (s : state) : history * state :=
  match sched with
  | [] => ([], s)
  | (c, ctor) :: rest =>
      match step c ctor s with
      | Some (a, s') =>
          let '(h, s_end) := exec rest s' in ((c, a, s) :: h, s_end)
      | None => exec rest s
      end
  end.

(** [n] calls, none of which has started; the global is [None] (line 46). *)
Definition init (n : nat) : state := mkState None None 0 (replicate n AtCheck).




(** What holds of a call at a given place, in a given state. *)
Definition local_inv (s : state) (c : call) (p : pc) : Prop :=
  match p with
  | AtCheck | AtAcquire | Raised _ => True
  | AtRecheck | AtReleaseExc _ => model_lock s = Some c
  | AtConstruct => model_lock s = Some c /\ model s = None /\ constructed s = 0
  | AtAssign h =>
      model_lock s = Some c /\ model s = None /\ h = 0 /\ constructed s = 1
  | AtRelease => model_lock s = Some c /\ model s = Some 0
  | AtReturn => model s = Some 0
  | Returned r => r = Some 0 /\ model s = Some 0
  end.

Definition inv (s : state) : Prop :=
  (forall c p, calls s !! c = Some p -> local_inv s c p) /\
  (model s = None \/ model s = Some 0) /\
  (constructed s = 0 /\ model s = None \/
   constructed s = 1 /\
     (model s = Some 0 \/ exists c, calls s !! c = Some (AtAssign 0))).



(** Two calls race: both pass the unlocked test, call 1 goes through the
    locked section and builds the handle, then call 0 enters it. *)
Definition race : schedule :=
  [(0, None); (1, None); (1, None); (1, None); (1, None); (1, None);
   (1, None); (1, None); (0, None); (0, None); (0, None); (0, None)].

(** Four calls: 0 and 1 race, the constructor fails for 1, 0 builds the
    handle, and 2 and 3 come once it exists. *)
Definition busy : schedule :=
  [(0, None); (1, None); (1, None); (1, None); (1, Some boom); (1, None);
   (0, None); (0, None); (0, None); (2, None); (0, None); (2, None);
   (0, None); (0, None); (3, None); (3, None)].

(** The places at which a call holds the lock. *)
Definition holds_lock (p : pc) : Prop :=
  match p with
  | AtRecheck | AtConstruct | AtAssign _ | AtRelease | AtReleaseExc _ => True
  | _ => False
  end.

(** The places at which a call is over. *)
Definition finished (p : pc) : Prop :=
  match p with
  | Returned _ | Raised _ => True
  | _ => False
  end.

(** Whoever is recorded as the holder of the lock is inside the [with]
    block. *)
Definition lock_inv (s : state) : Prop :=
  forall c, model_lock s = Some c ->
            exists p, calls s !! c = Some p /\ holds_lock p.

(** Call [c] is given the seven steps the longest path through [load_model]
    takes, with a constructor that succeeds. *)
Definition run_alone (c : call) : schedule := replicate 7 (c, None).

(** [n] calls, one after the other. *)
Definition one_by_one (n : nat) : schedule :=
  flat_map run_alone (seq 0 n).

End LoadModel.

(** * Properties *)

(** ** Slicing *)

Section Slicing.
Context {A : Type}.
Implicit Types l k : list A.

(** [l[-50:]] drops all but the last fifty entries. *)
Lemma py_slice_from_limit l :
  py_slice_from (- HISTORY_LIMIT) l = drop (length l - 50) l.
Proof.
  unfold py_slice_from, HISTORY_LIMIT. simpl.
  f_equal. lia.
Qed.

Lemma length_py_slice_from_limit l :
  length (py_slice_from (- HISTORY_LIMIT) l) = (length l `min` 50)%nat.
Proof. rewrite py_slice_from_limit, length_drop. lia. Qed.

(** Truncating, appending and truncating again is truncating once. *)
Lemma py_slice_from_limit_app l k :
  py_slice_from (- HISTORY_LIMIT) (py_slice_from (- HISTORY_LIMIT) l ++ k)
  = py_slice_from (- HISTORY_LIMIT) (l ++ k).
Proof.
  rewrite !py_slice_from_limit.
  rewrite !length_app, length_drop.
  destruct (decide (length l <= 50)%nat) as [Hle|Hgt].
  - replace (length l - 50)%nat with 0%nat by lia. simpl.
    now rewrite Nat.sub_0_r.
  - rewrite !drop_app.
    rewrite length_drop, drop_drop.
    f_equal; [f_equal; lia|].
    f_equal. lia.
Qed.

Lemma py_slice_from_limit_short l :
  (length l <= 50)%nat -> py_slice_from (- HISTORY_LIMIT) l = l.
Proof.
  intros Hle. rewrite py_slice_from_limit.
  now replace (length l - 50)%nat with 0%nat by lia.
Qed.

(** The new entry survives the truncation, behind a suffix of the old list. *)
Lemma py_slice_from_limit_snoc l x :
  py_slice_from (- HISTORY_LIMIT) (l ++ [x])
  = (drop (length l - 49) l ++ [x])%list.
Proof.
  rewrite py_slice_from_limit, length_app. simpl.
  rewrite drop_app.
  replace (length l + 1 - 50)%nat with (length l - 49)%nat by lia.
  f_equal.
  now replace (length l - 49 - length l)%nat with 0%nat by lia.
Qed.
End Slicing.

(** ** Running the chat path *)

Ltac run :=
  unfold handle, chat, start_chat, start_new_chat, process_user_message,
    generate_chatbot_response, store_chat_history, retrieve_chat_history,
    getitem, fail_with, log, emit, lift, try_except, bind, raise, ret;
  simpl.

Lemma emitted_eq w w' evs :
  trace w' = (trace w ++ evs)%list -> emitted w w' = evs.
Proof. intros E. unfold emitted. rewrite E. now rewrite drop_app_length. Qed.

Lemma py_or_empty_Some {A} (l : list A) : py_or_empty (Some l) = l.
Proof. now destruct l. Qed.

Lemma py_not_false v :
  py_not v = false <-> exists s, v = Some s /\ s <> "".
Proof.
  destruct v as [s|]; simpl.
  - rewrite bool_decide_eq_false. split; [eauto|].
    now intros (s' & [= ->] & Hs).
  - split; [discriminate|]. now intros (s & [=] & _).
Qed.

Lemma py_not_true v : py_not v = true <-> missing_or_empty v.
Proof.
  unfold missing_or_empty. destruct v as [s|]; simpl.
  - rewrite bool_decide_eq_true. split.
    + intros ->. now right.
    + now intros [[=]|[= ->]].
  - split; [now left|done].
Qed.

(** [generate_chatbot_response] always returns, whatever the chain does. *)
Lemma generate_chatbot_response_run env q h w :
  exists logs,
    generate_chatbot_response env q h w
    = (Ret (reply env q h),
       mkWorld (db w) (trace w ++ EvInvoke q h :: logs)) /\
    Forall (fun ev => is_external ev = false) logs.
Proof.
  run. unfold reply.
  destruct (invoke env q h) as [response|e]; simpl.
  - destruct (response !! "answer") as [a|]; simpl.
    + exists []. split; [done|constructor].
    + eexists [_]. split; [now rewrite <- app_assoc|].
      repeat constructor.
  - eexists [_]. split; [now rewrite <- app_assoc|].
    repeat constructor.
Qed.

(** [process_user_message] always returns: the reply, the extended history,
    one call to the chain and one write, which sticks unless it fails. *)
Lemma process_user_message_run env cid q h w :
  exists logs1 logs2,
    process_user_message env cid q h w
    = (Ret (reply env q h, extended env q h),
       mkWorld
         (match store_error env with
          | None => <[cid := extended env q h]> (db w)
          | Some _ => db w
          end)
         (trace w ++ EvInvoke q h :: logs1
                  ++ EvStore cid (extended env q h) :: logs2)) /\
    Forall (fun ev => is_external ev = false) logs1 /\
    Forall (fun ev => is_external ev = false) logs2.
Proof.
  destruct (generate_chatbot_response_run env q h w) as (logs1 & E & H1).
  unfold process_user_message, bind at 1. rewrite E.
  fold (extended env q h).
  exists logs1. run.
  destruct (store_error env) as [e|]; simpl.
  - eexists [_]. split.
    + do 2 f_equal. rewrite <- !app_assoc. simpl. reflexivity.
    + split; [done|repeat constructor].
  - eexists [_]. split.
    + do 2 f_equal. rewrite <- !app_assoc. simpl. reflexivity.
    + split; [done|repeat constructor].
Qed.

Arguments process_user_message : simpl never.
Arguments py_or_empty : simpl never.
Arguments stored : simpl never.
Arguments external_calls : simpl never.

(** The two [data.get] of lines 130-131 on an object body. *)
Ltac open_chat :=
  unfold chat, py_get;
  unfold bind at 1; unfold ret at 1; cbv beta iota;
  unfold bind at 1; unfold ret at 1; cbv beta iota.

Lemma external_calls_app evs evs' :
  external_calls (evs ++ evs') = (external_calls evs ++ external_calls evs')%list.
Proof. apply List.filter_app. Qed.

Lemma external_calls_cons ev evs :
  external_calls (ev :: evs)
  = if is_external ev then ev :: external_calls evs else external_calls evs.
Proof. reflexivity. Qed.

Lemma external_calls_logs logs :
  Forall (fun ev => is_external ev = false) logs -> external_calls logs = [].
Proof.
  induction 1 as [|ev logs Hev _ IH]; [done|].
  now rewrite external_calls_cons, Hev.
Qed.

Ltac calls :=
  repeat (rewrite ?external_calls_app, ?external_calls_cons,
            ?external_calls_logs by done; simpl).

(** A request that fails validation: line 133-135. *)
Lemma chat_invalid env data w :
  py_not (data !! "chat_id") || py_not (data !! "user_message") = true ->
  chat env (JObject data) w
  = (Ret (mkResponse (JError REQUIRED) 400),
     mkWorld (db w)
       (trace w ++ [EvLog WARNING "chat_id or user_message is missing in request."])).
Proof. intros Hbad. open_chat. now rewrite Hbad. Qed.

(** A valid request whose history cannot be read: the [except] of line 148. *)
Lemma chat_retrieve_fails env data cid q w e :
  data !! "chat_id" = Some cid -> data !! "user_message" = Some q ->
  cid <> "" -> q <> "" ->
  retrieve_error env = Some e ->
  chat env (JObject data) w
  = (Ret (mkResponse (JError INTERNAL) 500),
     mkWorld (db w)
       (trace w ++ [EvRetrieve cid;
                    EvLog ERROR ("Error in chat route: " +:+ exn_str e)])).
Proof.
  intros Hc Hq Hcid Hmsg Hr. open_chat. rewrite Hc, Hq.
  cbn [py_not]. rewrite !bool_decide_eq_false_2 by done.
  run. rewrite Hr. simpl. now rewrite <- app_assoc.
Qed.

(** A valid request whose history can be read: lines 139-147. *)
Lemma chat_valid_run env data cid q w :
  data !! "chat_id" = Some cid -> data !! "user_message" = Some q ->
  cid <> "" -> q <> "" ->
  retrieve_error env = None ->
  let h := stored w cid in
  exists evs,
    chat env (JObject data) w
    = (Ret (mkResponse (JChat (reply env q h) (extended env q h)) 200),
       mkWorld
         (match store_error env with
          | None => <[cid := extended env q h]> (db w)
          | Some _ => db w
          end)
         (trace w ++ evs)) /\
    external_calls evs
    = [EvRetrieve cid; EvInvoke q h; EvStore cid (extended env q h)].
Proof.
  intros Hc Hq Hcid Hmsg Hr h. open_chat. rewrite Hc, Hq.
  cbn [py_not]. rewrite !bool_decide_eq_false_2 by done.
  unfold retrieve_chat_history, log, emit, try_except, bind, ret.
  rewrite Hr. simpl. rewrite py_or_empty_Some. fold (stored w cid).
  fold h.
  destruct (bool_decide (h = [])); simpl;
    match goal with
    | |- context [process_user_message ?e ?c ?m ?l ?W] =>
        destruct (process_user_message_run e c m l W)
          as (logs1 & logs2 & -> & H1 & H2)
    end; simpl.
  - eexists. split.
    + rewrite <- !app_assoc. reflexivity.
    + calls. reflexivity.
  - eexists. split.
    + rewrite <- !app_assoc. reflexivity.
    + calls. reflexivity.
Qed.

(** ** The answer and the history handed back together *)

(** C10.  For every input history and every user message (the empty one
    included), [process_user_message] returns, and what it returns fits
    together: the updated history is not empty, its last entry carries the
    message that came in and the answer that goes out, and the entries before
    it are a suffix of the input history, in their original order. *)
Theorem process_user_message_consistent env cid q (h : list Exchange) w :
  exists ans updated kept w',
    process_user_message env cid q h w = (Ret (ans, updated), w') /\
    updated <> [] /\
    (exists e, last updated = Some e /\ user_message e = q /\ bot_response e = ans) /\
    updated = (kept ++ [mkExchange (now env) q ans])%list /\
    kept = drop (length h - 49) h /\
    kept `suffix_of` h /\
    kept `sublist_of` h.
Proof.
  destruct (process_user_message_run env cid q h w) as (l1 & l2 & E & _).
  eexists _, _, (drop (length h - 49) h), _.
  split; [exact E|].
  unfold extended. rewrite py_slice_from_limit_snoc.
  split; [now destruct (drop _ h)|].
  split; [|split; [done|split; [done|]]].
  - eexists. rewrite last_snoc. done.
  - split; [apply suffix_drop|apply sublist_drop].
Qed.

(** ** Failure of the retrieval chain *)


(** ** Failure of the persistence write *)

(** C4.  A valid send-message request during which [store_chat_history]
    raises is answered with status 200, the computed answer and the updated,
    truncated history: the very response of the run in which the write goes
    through.  The write was attempted, and the store is as it was. *)
Theorem store_failure_not_visible env data cid q w e :
  data !! "chat_id" = Some cid -> data !! "user_message" = Some q ->
  cid <> "" -> q <> "" ->
  retrieve_error env = None ->
  store_error env = Some e ->
  let h := stored w cid in
  exists w',
    chat env (JObject data) w
      = (Ret (mkResponse (JChat (reply env q h) (extended env q h)) 200), w') /\
    (chat env (JObject data) w).1 = (chat (with_store_error None env) (JObject data) w).1 /\
    (process_user_message env cid q h w).1 = Ret (reply env q h, extended env q h) /\
    EvStore cid (extended env q h) ∈ emitted w w' /\
    db w' = db w.
Proof.
  intros Hc Hq Hcid Hmsg Hr Hs h.
  destruct (chat_valid_run env data cid q w Hc Hq Hcid Hmsg Hr) as (evs & E & Hevs).
  destruct (chat_valid_run (with_store_error None env) data cid q w
              Hc Hq Hcid Hmsg Hr) as (evs' & E' & _).
  fold h in E, E', Hevs.
  eexists. split; [exact E|].
  split; [now rewrite E, E'|].
  split; [|split].
  - now destruct (process_user_message_run env cid q h w) as (l1 & l2 & -> & _).
  - erewrite emitted_eq by reflexivity.
    assert (Hin : EvStore cid (extended env q h) ∈ external_calls evs)
      by (rewrite Hevs; set_solver).
    unfold external_calls in Hin.
    apply list_elem_of_In, List.filter_In in Hin as [Hin _].
    now apply list_elem_of_In.
  - simpl. now rewrite Hs.
Qed.

(** ** Validation *)

(** A body that is not an object: [data.get] raises at line 130, before the
    [try], and the exception leaves the view. *)
Lemma chat_not_object env body w :
  is_object body = false ->
  chat env body w
  = (Raise (mkExn "AttributeError"
              ("'" +:+ py_type_name body +:+ "' object has no attribute 'get'")),
     w).
Proof. intros Hobj. destruct body; try reflexivity. discriminate Hobj. Qed.

(** C5, at the requests for which it fails.  A POST /chat request whose body
    is not a JSON object ([null], an array, a string, a number, a boolean)
    has no [chat_id] and no [user_message], and yet is not answered with
    status 400 and the required-fields body: the view raises
    [AttributeError] at line 130, outside the [try] of line 137, nothing is
    logged, and what the client gets is the server's own error page with
    status 500.  No call is made and the store is untouched. *)
Theorem chat_raises_without_object env body w :
  is_object body = false ->
  exists e,
    chat env body w = (Raise e, w) /\
    exn_class e = "AttributeError" /\
    (chat env body w).1 <> Ret (mkResponse (JError REQUIRED) 400) /\
    serve [(env, PostChat body)] w = (Ret [mkResponse ErrorPage 500], w).
Proof.
  intros Hobj. eexists.
  rewrite (chat_not_object env body w Hobj).
  split; [reflexivity|]. split; [reflexivity|]. split; [discriminate|].
  simpl. unfold try_except, bind, ret.
  now rewrite (chat_not_object env body w Hobj).
Qed.

Lemma chat_raises_without_object_witness :
  exists e,
    chat env_up JNull world0 = (Raise e, world0) /\
    exn_class e = "AttributeError" /\
    (chat env_up JNull world0).1 <> Ret (mkResponse (JError REQUIRED) 400) /\
    serve [(env_up, PostChat JNull)] world0
      = (Ret [mkResponse ErrorPage 500], world0).
Proof.
  apply (chat_raises_without_object env_up JNull world0).
  reflexivity.
Defined.

(** X18.  A POST /chat request whose body is an object in which [chat_id]
    or [user_message] is missing or empty is answered with status 400 and
    the body [{"error": "chat_id and user_message are required"}]; the run
    calls neither the retrieval chain nor the persistence service, and
    leaves the store untouched. *)
Theorem chat_rejects_missing_fields env data w :
  missing_or_empty (data !! "chat_id") \/ missing_or_empty (data !! "user_message") ->
  exists w',
    chat env (JObject data) w
      = (Ret (mkResponse (JError "chat_id and user_message are required") 400), w') /\
    external_calls (emitted w w') = [] /\
    db w' = db w.
Proof.
  intros Hbad.
  assert (Hnot : py_not (data !! "chat_id") || py_not (data !! "user_message") = true).
  { apply orb_true_iff. destruct Hbad as [H|H]; [left|right]; now apply py_not_true. }
  rewrite (chat_invalid env data w Hnot).
  eexists. split; [reflexivity|]. split; [|reflexivity].
  erewrite emitted_eq by reflexivity. reflexivity.
Qed.

(** ** A session nobody has written to *)

(** C6.  For a session id under which nothing is stored, reading the history
    gives the empty list and raises nothing, and a send-message request on
    that id is served as the first one of a new session: the chain is asked
    with an empty history, the response has status 200 and a history of the
    one new exchange, which is what gets stored. *)
Theorem unknown_session_starts_empty env data cid q w :
  data !! "chat_id" = Some cid -> data !! "user_message" = Some q ->
  cid <> "" -> q <> "" ->
  retrieve_error env = None ->
  db w !! cid = None ->
  (retrieve_chat_history env cid w).1 = Ret (Some []) /\
  exists w',
    let first := mkExchange (now env) q (reply env q []) in
    chat env (JObject data) w = (Ret (mkResponse (JChat (reply env q []) [first]) 200), w') /\
    EvInvoke q [] ∈ emitted w w' /\
    EvStore cid [first] ∈ emitted w w' /\
    (store_error env = None -> db w' !! cid = Some [first]).
Proof.
  intros Hc Hq Hcid Hmsg Hr Hnone.
  split.
  { unfold retrieve_chat_history, emit, bind. rewrite Hr. simpl. now rewrite Hnone. }
  destruct (chat_valid_run env data cid q w Hc Hq Hcid Hmsg Hr) as (evs & E & Hevs).
  assert (Hh : stored w cid = []) by (unfold stored; now rewrite Hnone).
  rewrite Hh in E, Hevs.
  change (extended env q []) with [mkExchange (now env) q (reply env q [])] in E, Hevs.
  eexists. split; [exact E|].
  erewrite emitted_eq by reflexivity.
  assert (Hsub : forall ev, ev ∈ external_calls evs -> ev ∈ evs).
  { intros ev Hin. unfold external_calls in Hin.
    apply list_elem_of_In, List.filter_In in Hin as [Hin _].
    now apply list_elem_of_In. }
  split; [apply Hsub; rewrite Hevs; set_solver|].
  split; [apply Hsub; rewrite Hevs; set_solver|].
  intros ->. simpl. apply lookup_insert_eq.
Qed.

(** ** The 500 response *)

(** C9.  A failure of the retrieval chain never leads to the 500 response.
    [generate_chatbot_response] returns the apology where the chain raises;
    a /chat run in which the chain was invoked and raised ends with status
    200 and the apology; a run that ends with status 500 is one in which the
    history could not be read and the chain was never invoked; and the
    apology is not the text of the 500 body. *)
Theorem chain_failure_never_500 env data w :
  exists resp w',
    chat env (JObject data) w = (Ret resp, w') /\
    (forall q h e,
        EvInvoke q h ∈ emitted w w' -> invoke env q h = Raise e ->
        status resp = 200 /\ answer_of resp = APOLOGY /\
        body resp <> JError INTERNAL) /\
    (status resp = 500 ->
        body resp = JError INTERNAL /\ is_Some (retrieve_error env) /\
        Forall (fun ev => is_invoke ev = false) (emitted w w')) /\
    (forall q h w0 e,
        invoke env q h = Raise e ->
        (generate_chatbot_response env q h w0).1 = Ret APOLOGY) /\
    APOLOGY <> INTERNAL.
Proof.
  assert (Hgen : forall q h w0 e,
             invoke env q h = Raise e ->
             (generate_chatbot_response env q h w0).1 = Ret APOLOGY).
  { intros q h w0 e Hraise.
    destruct (generate_chatbot_response_run env q h w0) as (logs & -> & _).
    unfold reply. now rewrite Hraise. }
  destruct (py_not (data !! "chat_id") || py_not (data !! "user_message")) eqn:Hv.
  - rewrite (chat_invalid env data w Hv).
    eexists _, _. split; [reflexivity|].
    erewrite emitted_eq by reflexivity.
    split; [|split; [|split; [exact Hgen|]]]; simpl; try done.
    intros q h e Hin. apply list_elem_of_In in Hin. simpl in Hin.
    intuition discriminate.
  - apply orb_false_iff in Hv as [Hc Hq].
    apply py_not_false in Hc as (cid & Hc & Hcid).
    apply py_not_false in Hq as (q & Hq & Hmsg).
    destruct (retrieve_error env) as [err|] eqn:Hr.
    + rewrite (chat_retrieve_fails env data cid q w err Hc Hq Hcid Hmsg Hr).
      eexists _, _. split; [reflexivity|].
      erewrite emitted_eq by reflexivity.
      split; [|split; [|split; [exact Hgen|]]]; simpl; try done.
      * intros q' h e Hin. apply list_elem_of_In in Hin. simpl in Hin.
        intuition discriminate.
      * intros _. split; [done|]. split; [eauto|]. repeat constructor.
    + destruct (chat_valid_run env data cid q w Hc Hq Hcid Hmsg Hr)
        as (evs & -> & Hevs).
      eexists _, _. split; [reflexivity|].
      erewrite emitted_eq by reflexivity.
      split; [|split; [|split; [exact Hgen|]]]; simpl; try done.
      intros q' h e Hin Hraise.
      assert (Hin' : EvInvoke q' h ∈ external_calls evs).
      { unfold external_calls. apply list_elem_of_In, List.filter_In.
        split; [now apply list_elem_of_In|done]. }
      rewrite Hevs in Hin'. apply list_elem_of_In in Hin'. simpl in Hin'.
      destruct Hin' as [Heq|[Heq|[Heq|[]]]]; try discriminate Heq.
      injection Heq as <- <-.
      unfold answer_of, reply. simpl. now rewrite Hraise.
Qed.

(** ** Configuration *)

Lemma startup_config_error boot w :
  py_not (environ boot !! "SUPABASE_URL") || py_not (environ boot !! "SUPABASE_KEY") = true ->
  startup boot w
  = (Raise (mkExn "ValueError" NOT_SET),
     mkWorld (db w) (trace w ++ [EvLog ERROR NOT_SET])).
Proof.
  intros Hbad. unfold startup. rewrite Hbad. reflexivity.
Qed.

Example startup_with_credentials :
  (startup (mkBoot (<["SUPABASE_KEY" := "secret"]> (environ boot_no_key))
                   None None None None) world0).1 = Ret tt.
Proof. reflexivity. Qed.

(** C8.  Where the persistence-service URL or key is absent from the
    environment, the module body raises the configuration error (a
    [ValueError]) right after logging it: no client is created, no service is
    initialised, and no request is ever served by the process. *)
Theorem startup_fails_without_credentials boot reqs w :
  environ boot !! "SUPABASE_URL" = None \/ environ boot !! "SUPABASE_KEY" = None ->
  startup boot w
    = (Raise (mkExn "ValueError" NOT_SET),
       mkWorld (db w) (trace w ++ [EvLog ERROR NOT_SET])) /\
  run_process boot reqs w
    = (Raise (mkExn "ValueError" NOT_SET),
       mkWorld (db w) (trace w ++ [EvLog ERROR NOT_SET])).
Proof.
  intros Habsent.
  assert (E : startup boot w
              = (Raise (mkExn "ValueError" NOT_SET),
                 mkWorld (db w) (trace w ++ [EvLog ERROR NOT_SET]))).
  { apply startup_config_error, orb_true_iff.
    destruct Habsent as [-> | ->]; [left|right]; reflexivity. }
  split; [exact E|].
  unfold run_process, bind. now rewrite E.
Qed.

(** ** The history of a session over many requests *)

Lemma message_chat_id cid q : message cid q !! "chat_id" = Some cid.
Proof. unfold message. apply lookup_insert_eq. Qed.

Lemma message_user_message cid q : message cid q !! "user_message" = Some q.
Proof.
  unfold message. rewrite lookup_insert_ne by done.
  apply lookup_singleton_eq.
Qed.

Lemma serve_cons env req rest w :
  serve ((env, req) :: rest) w
  = match handle env req w with
    | (Ret resp, w1) =>
        match serve rest w1 with
        | (Ret resps, w2) => (Ret (resp :: resps), w2)
        | (Raise e, w2) => (Raise e, w2)
        end
    | (Raise _, w1) =>
        match serve rest w1 with
        | (Ret resps, w2) => (Ret (mkResponse ErrorPage 500 :: resps), w2)
        | (Raise e, w2) => (Raise e, w2)
        end
    end.
Proof.
  simpl. unfold try_except, bind, ret.
  destruct (handle env req w) as [[resp|e] w1];
    now destruct (serve rest w1) as [[resps|e'] w2].
Qed.

(** From any stored history of at most fifty entries: what is stored after
    the operations is the last fifty of the old entries followed by the new
    ones, and it is the history the last response carries. *)
Lemma serve_send_all cid (ops : list (Env * string)) w :
  cid <> "" ->
  (length (stored w cid) <= 50)%nat ->
  Forall goes_through ops ->
  exists resps w',
    serve (send_all cid ops) w = (Ret resps, w') /\
    length resps = length ops /\
    Forall (fun r => status r = 200) resps /\
    stored w' cid
      = py_slice_from (- HISTORY_LIMIT)
          (stored w cid ++ zip_with exchange_of ops resps) /\
    (ops <> [] -> is_Some (db w' !! cid)) /\
    (forall r, last resps = Some r -> history_of r = stored w' cid).
Proof.
  intros Hcid Hlen Hops. revert w Hlen.
  induction Hops as [|[env q] rest (Hq & Hr & Hs) _ IH]; intros w Hlen.
  - exists [], w. simpl. rewrite app_nil_r, py_slice_from_limit_short by done.
    repeat split; done.
  - simpl in Hq, Hr, Hs.
    destruct (chat_valid_run env (message cid q) cid q w
                (message_chat_id cid q) (message_user_message cid q)
                Hcid Hq Hr) as (evs & E & _).
    rewrite Hs in E.
    set (w1 := mkWorld (<[cid := extended env q (stored w cid)]> (db w))
                       (trace w ++ evs)) in *.
    assert (Hst : stored w1 cid = extended env q (stored w cid)).
    { unfold stored at 1, w1. simpl. now rewrite lookup_insert_eq. }
    destruct (IH w1) as (resps & w' & Erest & Hl & H200 & Hstored & Hsome & Hlast).
    { rewrite Hst. unfold extended. rewrite length_py_slice_from_limit. lia. }
    eexists (_ :: resps), w'.
    split.
    { unfold send_all. rewrite map_cons, serve_cons. cbn [handle fst snd].
      rewrite E. fold (send_all cid rest). now rewrite Erest. }
    split; [simpl; now rewrite Hl|].
    split; [constructor; [done|exact H200]|].
    assert (Hall : stored w' cid
                   = py_slice_from (- HISTORY_LIMIT)
                       (stored w cid
                        ++ exchange_of (env, q)
                             (mkResponse
                                (JChat (reply env q (stored w cid))
                                       (extended env q (stored w cid))) 200)
                           :: zip_with exchange_of rest resps)).
    { rewrite Hstored, Hst. unfold extended at 1.
      rewrite py_slice_from_limit_app, <- app_assoc. reflexivity. }
    split; [exact Hall|].
    split.
    { intros _. destruct rest as [|op rest'].
      - destruct resps; [|discriminate Hl]. simpl in Erest.
        injection Erest as <-. unfold w1. simpl. rewrite lookup_insert_eq. eauto.
      - now apply Hsome. }
    intros r Hr'. destruct resps as [|r' resps'].
    + simpl in Hr'. injection Hr' as <-. simpl.
      destruct rest; [|discriminate Hl]. simpl in Erest.
      injection Erest as <-. now rewrite Hst.
    + apply Hlast. now rewrite last_cons_cons in Hr'.
Qed.

(** A request on another session leaves the history of this one alone. *)
Lemma chat_other_session env data cid w :
  data !! "chat_id" <> Some cid ->
  db (chat env (JObject data) w).2 !! cid = db w !! cid.
Proof.
  intros Hne.
  destruct (py_not (data !! "chat_id") || py_not (data !! "user_message")) eqn:Hv.
  - now rewrite (chat_invalid env data w Hv).
  - apply orb_false_iff in Hv as [Hc Hq].
    apply py_not_false in Hc as (cid' & Hc & Hcid).
    apply py_not_false in Hq as (q & Hq & Hmsg).
    destruct (retrieve_error env) as [err|] eqn:Hr.
    + now rewrite (chat_retrieve_fails env data cid' q w err Hc Hq Hcid Hmsg Hr).
    + destruct (chat_valid_run env data cid' q w Hc Hq Hcid Hmsg Hr)
        as (evs & -> & _).
      simpl. destruct (store_error env); [done|].
      apply lookup_insert_ne. congruence.
Qed.

(** An operation whose write fails is answered all the same (status 200,
    history of one entry) but leaves nothing behind: the next operation on
    the session starts from an empty history again. *)
Example answered_but_not_stored :
  let run := serve (send_all "abc" [(env_store_down, "one"); (env_up, "two")]) world0 in
  exists resps,
    run.1 = Ret resps /\
    map status resps = [200; 200] /\
    map (fun r => length (history_of r)) resps = [1%nat; 1%nat] /\
    length (stored run.2 "abc") = 1%nat.
Proof. eexists. vm_compute. repeat split. Qed.

(** C1.  Take a session with nothing stored and N send-message operations on
    it that run to their end, one after the other.  Every one is answered
    with status 200, and after the N-th the stored history is the list of the
    N exchanges made, in the order they were made, without its first N - 50
    entries when N exceeds 50; its length is min(N, 50); and it is the
    history the N-th response carries. *)
Theorem history_after_sends cid (ops : list (Env * string)) w :
  cid <> "" ->
  db w !! cid = None ->
  Forall goes_through ops ->
  exists resps w',
    let made := zip_with exchange_of ops resps in
    let N := length ops in
    serve (send_all cid ops) w = (Ret resps, w') /\
    Forall (fun r => status r = 200) resps /\
    length made = N /\
    stored w' cid = drop (N - 50) made /\
    length (stored w' cid) = (N `min` 50)%nat /\
    (N <> 0%nat -> db w' !! cid = Some (drop (N - 50) made)) /\
    (forall r, last resps = Some r -> history_of r = drop (N - 50) made).
Proof.
  intros Hcid Hnone Hops.
  assert (Hempty : stored w cid = []) by (unfold stored; now rewrite Hnone).
  destruct (serve_send_all cid ops w Hcid) as (resps & w' & E & Hl & H200 & Hst & Hsome & Hlast);
    [rewrite Hempty; simpl; lia|done|].
  exists resps, w'. cbn zeta.
  assert (Hmade : length (zip_with exchange_of ops resps) = length ops).
  { rewrite length_zip_with. lia. }
  rewrite Hempty in Hst. simpl in Hst.
  rewrite py_slice_from_limit, Hmade in Hst.
  split; [exact E|]. split; [exact H200|]. split; [exact Hmade|].
  split; [exact Hst|].
  split; [rewrite Hst, length_drop, Hmade; lia|].
  split.
  - intros HN. destruct Hsome as [l Hl'].
    { intros ->. now apply HN. }
    unfold stored in Hst. rewrite Hl' in Hst. simpl in Hst. now rewrite Hl', Hst.
  - intros r Hr. rewrite <- Hst. now apply Hlast.
Qed.

(** ** Starting a session *)

(** [start_chat] hands out the identifier it drew and only logs: the store
    is untouched and no external call is made. *)
Lemma start_chat_leaves_store env w :
  start_chat env w
  = (Ret (mkResponse (JChatId (uuid4 env)) 200),
     mkWorld (db w)
       (trace w ++ [EvLog INFO ("New chat session started with ID: " +:+ uuid4 env)])).
Proof. reflexivity. Qed.

(** ** The statements at sample inputs *)

Lemma goes_through_env_up q : q <> "" -> goes_through (env_up, q).
Proof. intros Hq. repeat split; done. Defined.

Lemma history_after_sends_witness :
  exists resps w',
    let ops := replicate 52 (env_up, "hello") in
    let made := zip_with exchange_of ops resps in
    serve (send_all "abc" ops) world0 = (Ret resps, w') /\
    Forall (fun r => status r = 200) resps /\
    length made = 52%nat /\
    stored w' "abc" = drop 2 made /\
    length (stored w' "abc") = 50%nat /\
    (52%nat <> 0%nat -> db w' !! "abc" = Some (drop 2 made)) /\
    (forall r, last resps = Some r -> history_of r = drop 2 made).
Proof.
  apply (history_after_sends "abc" (replicate 52 (env_up, "hello")) world0).
  - discriminate.
  - reflexivity.
  - apply Forall_replicate, goes_through_env_up. discriminate.
Defined.


Lemma store_failure_not_visible_witness :
  let h := stored world0 "abc" in
  exists w',
    chat env_store_down (JObject (message "abc" "hello")) world0
      = (Ret (mkResponse (JChat (reply env_store_down "hello" h)
                                (extended env_store_down "hello" h)) 200), w') /\
    (chat env_store_down (JObject (message "abc" "hello")) world0).1
      = (chat (with_store_error None env_store_down) (JObject (message "abc" "hello")) world0).1 /\
    (process_user_message env_store_down "abc" "hello" h world0).1
      = Ret (reply env_store_down "hello" h, extended env_store_down "hello" h) /\
    EvStore "abc" (extended env_store_down "hello" h) ∈ emitted world0 w' /\
    db w' = db world0.
Proof.
  apply (store_failure_not_visible env_store_down (message "abc" "hello")
           "abc" "hello" world0 boom).
  - apply message_chat_id.
  - apply message_user_message.
  - discriminate.
  - discriminate.
  - reflexivity.
  - reflexivity.
Defined.

Lemma chat_rejects_missing_fields_witness :
  exists w',
    chat env_up (JObject {["chat_id" := "abc"]}) world0
      = (Ret (mkResponse (JError "chat_id and user_message are required") 400), w') /\
    external_calls (emitted world0 w') = [] /\
    db w' = db world0.
Proof.
  apply (chat_rejects_missing_fields env_up {["chat_id" := "abc"]} world0).
  right. left. reflexivity.
Defined.

Lemma unknown_session_starts_empty_witness :
  (retrieve_chat_history env_up "abc" world0).1 = Ret (Some []) /\
  exists w',
    let first := mkExchange (now env_up) "hello" (reply env_up "hello" []) in
    chat env_up (JObject (message "abc" "hello")) world0
      = (Ret (mkResponse (JChat (reply env_up "hello" []) [first]) 200), w') /\
    EvInvoke "hello" [] ∈ emitted world0 w' /\
    EvStore "abc" [first] ∈ emitted world0 w' /\
    (store_error env_up = None -> db w' !! "abc" = Some [first]).
Proof.
  apply (unknown_session_starts_empty env_up (message "abc" "hello")
           "abc" "hello" world0).
  - apply message_chat_id.
  - apply message_user_message.
  - discriminate.
  - discriminate.
  - reflexivity.
  - reflexivity.
Defined.

Lemma startup_fails_without_credentials_witness :
  startup boot_no_key world0
    = (Raise (mkExn "ValueError" NOT_SET),
       mkWorld (db world0) (trace world0 ++ [EvLog ERROR NOT_SET])) /\
  run_process boot_no_key [(env_up, PostChat (JObject (message "abc" "hello")))] world0
    = (Raise (mkExn "ValueError" NOT_SET),
       mkWorld (db world0) (trace world0 ++ [EvLog ERROR NOT_SET])).
Proof.
  apply (startup_fails_without_credentials boot_no_key
           [(env_up, PostChat (JObject (message "abc" "hello")))] world0).
  right. reflexivity.
Defined.

(** ** [load_model] under interleaving *)

Module LoadModelFacts.
Import LoadModel.
Local Open Scope nat_scope.

(** Case analysis on the step a call takes. *)
Ltac step_cases H :=
  unfold step in H;
  repeat match type of H with
         | context [match ?x with _ => _ end] =>
             let E := fresh "E" in destruct x eqn:E
         end;
  try discriminate H;
  injection H as <- <-.

Lemma exec_cons_Some c ctor rest s a s' :
  step c ctor s = Some (a, s') ->
  exec ((c, ctor) :: rest) s = ((c, a, s) :: (exec rest s').1, (exec rest s').2).
Proof. intros E. simpl. rewrite E. now destruct (exec rest s'). Qed.

Lemma exec_cons_None c ctor rest s :
  step c ctor s = None -> exec ((c, ctor) :: rest) s = exec rest s.
Proof. intros E. simpl. now rewrite E. Qed.

(** A step of one call leaves the place of every other call alone. *)
Lemma step_other c c' ctor s a s' :
  step c ctor s = Some (a, s') -> c' <> c -> calls s' !! c' = calls s !! c'.
Proof.
  intros H Hne. step_cases H; simpl; now apply list_lookup_insert_ne.
Qed.

(** A call that moves exists, and does not come back to the unlocked test. *)
Lemma step_self c ctor s a s' :
  step c ctor s = Some (a, s') ->
  exists p p', calls s !! c = Some p /\ calls s' !! c = Some p' /\ p' <> AtCheck.
Proof.
  intros H. step_cases H; simpl;
    (eexists _, _; split; [reflexivity|];
     split; [apply list_lookup_insert_eq; eapply lookup_lt_Some; eassumption|done]).
Qed.





(** *** The invariant *)

Lemma inv_init n : inv (init n).
Proof.
  split; [|split; [now left|now left]].
  intros c p Hp. simpl in Hp.
  apply lookup_replicate in Hp as [-> _]. exact I.
Qed.

(** What a call knows at its place is not disturbed by a step of another
    call: the other call either leaves the globals alone or holds the lock. *)
Lemma inv_step c ctor s a s' :
  inv s -> step c ctor s = Some (a, s') -> inv s'.
Proof.
  intros (Hloc & Hmodel & Hcount) H.
  assert (Hlt : c < length (calls s)).
  { destruct (step_self _ _ _ _ _ H) as (p & _ & Hp & _).
    eapply lookup_lt_Some, Hp. }
  assert (Hothers : forall c' p, c' <> c ->
            calls s' !! c' = Some p -> calls s !! c' = Some p).
  { intros c' p Hne Hp. now rewrite <- (step_other _ _ _ _ _ _ H). }
  assert (Hzero : model_lock s = Some c -> model s = None ->
            (forall h, calls s !! c <> Some (AtAssign h)) -> constructed s = 0).
  { intros Hlock Hnone Hpc.
    destruct Hcount as [[? _]|[_ [?|[c' Hc']]]]; [done|congruence|].
    pose proof (Hloc _ _ Hc') as (Hl & _). simpl in Hl.
    assert (c' = c) as -> by congruence. now apply Hpc in Hc'. }
  step_cases H;
    match goal with
    | Hpc : calls s !! c = Some _ |- _ => pose proof (Hloc _ _ Hpc) as Hme; simpl in Hme
    end.
  all: split; [|split]; simpl.
  all: try (intros c' p' Hp';
            destruct (decide (c' = c)) as [->|Hne];
            [ simpl in Hp'; rewrite list_lookup_insert_eq in Hp' by done;
              injection Hp' as <-; simpl;
              repeat split;
              first [ intuition congruence
                    | apply Hzero; [done|done|congruence] ]
            | clear Hzero; apply Hothers in Hp'; [|done];
              specialize (Hloc _ _ Hp'); destruct p'; simpl in *;
              intuition congruence ]).
  all: clear Hzero.
  all: try (intuition congruence).
  all: try (destruct Hcount as [[? ?]|[? [?|[c' Hc']]]];
            [ left; intuition congruence
            | right; intuition congruence
            | try (right; split; [intuition congruence|]);
              destruct (decide (c' = c)) as [->|Hne];
              [ congruence
              | right; exists c'; now rewrite list_lookup_insert_ne by done ] ]).
  destruct Hme as (_ & _ & ->). right. split; [done|].
  right. exists c. now apply list_lookup_insert_eq.
Qed.


Example race_outcome :
  (exec race (init 2)).2
  = mkState (Some 0) None 1 [Returned (Some 0); Returned (Some 0)].
Proof. reflexivity. Qed.

Example busy_outcome :
  (exec busy (init 4)).2
  = mkState (Some 0) None 1
      [Returned (Some 0); Raised boom; AtAcquire; Returned (Some 0)].
Proof. reflexivity. Qed.



End LoadModelFacts.

(** * Further properties of the request path *)

Lemma bad_fields (data : gmap string string) :
  py_not (data !! "chat_id") || py_not (data !! "user_message") = true
  <-> missing_or_empty (data !! "chat_id") \/ missing_or_empty (data !! "user_message").
Proof. now rewrite orb_true_iff, !py_not_true. Qed.

(** The three ways a /chat request ends. *)
Lemma chat_cases env data w :
  (missing_or_empty (data !! "chat_id") \/ missing_or_empty (data !! "user_message")) /\
    chat env (JObject data) w
    = (Ret (mkResponse (JError REQUIRED) 400),
       mkWorld (db w)
         (trace w ++ [EvLog WARNING "chat_id or user_message is missing in request."]))
  \/ (exists cid q e,
        data !! "chat_id" = Some cid /\ data !! "user_message" = Some q /\
        cid <> "" /\ q <> "" /\ retrieve_error env = Some e /\
        chat env (JObject data) w
        = (Ret (mkResponse (JError INTERNAL) 500),
           mkWorld (db w)
             (trace w ++ [EvRetrieve cid;
                          EvLog ERROR ("Error in chat route: " +:+ exn_str e)])))
  \/ (exists cid q evs,
        data !! "chat_id" = Some cid /\ data !! "user_message" = Some q /\
        cid <> "" /\ q <> "" /\ retrieve_error env = None /\
        chat env (JObject data) w
        = (Ret (mkResponse (JChat (reply env q (stored w cid))
                                  (extended env q (stored w cid))) 200),
           mkWorld
             (match store_error env with
              | None => <[cid := extended env q (stored w cid)]> (db w)
              | Some _ => db w
              end)
             (trace w ++ evs)) /\
        external_calls evs
        = [EvRetrieve cid; EvInvoke q (stored w cid);
           EvStore cid (extended env q (stored w cid))]).
Proof.
  destruct (py_not (data !! "chat_id") || py_not (data !! "user_message")) eqn:Hv.
  - left. split; [now apply bad_fields|now apply chat_invalid].
  - right. apply orb_false_iff in Hv as [Hc Hq].
    apply py_not_false in Hc as (cid & Hc & Hcid).
    apply py_not_false in Hq as (q & Hq & Hmsg).
    destruct (retrieve_error env) as [err|] eqn:Hr.
    + left. exists cid, q, err. repeat split; try done.
      now apply (chat_retrieve_fails env data cid q w err).
    + right.
      destruct (chat_valid_run env data cid q w Hc Hq Hcid Hmsg Hr) as (evs & E & Hevs).
      exists cid, q, evs. repeat split; done.
Qed.

Lemma not_bad_fields (data : gmap string string) cid q :
  data !! "chat_id" = Some cid -> data !! "user_message" = Some q ->
  cid <> "" -> q <> "" ->
  ~ (missing_or_empty (data !! "chat_id") \/ missing_or_empty (data !! "user_message")).
Proof.
  intros -> -> Hcid Hq [[H|H]|[H|H]]; try discriminate H;
    injection H as ->; done.
Qed.

(** X1.  What [chat] does is settled by the body and by the read of the
    history.  A body that is not an object makes it raise [AttributeError]
    with nothing logged, called or stored.  On an object (with string
    fields) it returns a response whose status tells three cases apart: 400
    exactly when a field is missing or empty, 500 exactly when both fields
    are there and reading the history raised, 200 exactly when both fields
    are there and the history could be read. *)
Theorem chat_status_cases env body w :
  (is_object body = false ->
   exists e, chat env body w = (Raise e, w) /\ exn_class e = "AttributeError") /\
  (forall data, body = JObject data ->
   exists resp w',
    chat env body w = (Ret resp, w') /\
    (status resp = 400 <->
       missing_or_empty (data !! "chat_id") \/
       missing_or_empty (data !! "user_message")) /\
    (status resp = 500 <->
       ~ (missing_or_empty (data !! "chat_id") \/
          missing_or_empty (data !! "user_message")) /\
       is_Some (retrieve_error env)) /\
    (status resp = 200 <->
       ~ (missing_or_empty (data !! "chat_id") \/
          missing_or_empty (data !! "user_message")) /\
       retrieve_error env = None)).
Proof.
  split.
  { intros Hobj. eexists. rewrite (chat_not_object env body w Hobj). done. }
  intros data ->.
  destruct (chat_cases env data w)
    as [[Hbad E]|[(cid & q & e & Hc & Hq & Hcid & Hmsg & Hr & E)
                 |(cid & q & evs & Hc & Hq & Hcid & Hmsg & Hr & E & _)]];
    rewrite E; eexists _, _; (split; [reflexivity|]); simpl.
  - split; [tauto|]. split; (split; [discriminate|tauto]).
  - pose proof (not_bad_fields data cid q Hc Hq Hcid Hmsg) as Hok.
    rewrite Hr. split; [split; [discriminate|tauto]|].
    split; [split; eauto|].
    split; [discriminate|]. now intros [_ [=]].
  - pose proof (not_bad_fields data cid q Hc Hq Hcid Hmsg) as Hok.
    rewrite Hr. split; [split; [discriminate|tauto]|].
    split; [|tauto].
    split; [discriminate|]. intros [_ [? [=]]].
Qed.

(** X2.  A valid request whose history cannot be read is answered with
    status 500 and the fixed error text, whatever the exception says; the
    read is the only external call of the run (the chain is not invoked,
    nothing is written) and the store is as it was. *)
Theorem chat_read_failure env data cid q w e :
  data !! "chat_id" = Some cid -> data !! "user_message" = Some q ->
  cid <> "" -> q <> "" ->
  retrieve_error env = Some e ->
  exists w',
    chat env (JObject data) w
      = (Ret (mkResponse (JError "An error occurred while processing your request.") 500),
         w') /\
    external_calls (emitted w w') = [EvRetrieve cid] /\
    db w' = db w.
Proof.
  intros Hc Hq Hcid Hmsg Hr.
  rewrite (chat_retrieve_fails env data cid q w e Hc Hq Hcid Hmsg Hr).
  eexists. split; [reflexivity|]. split; [|reflexivity].
  erewrite emitted_eq by reflexivity. reflexivity.
Qed.

Lemma chat_read_failure_witness :
  exists w',
    chat env_read_down (JObject (message "abc" "hello")) world1
      = (Ret (mkResponse (JError "An error occurred while processing your request.") 500),
         w') /\
    external_calls (emitted world1 w') = [EvRetrieve "abc"] /\
    db w' = db world1.
Proof.
  apply (chat_read_failure env_read_down (message "abc" "hello") "abc" "hello"
           world1 boom).
  - apply message_chat_id.
  - apply message_user_message.
  - discriminate.
  - discriminate.
  - reflexivity.
Defined.

(** X3.  A valid request whose history can be read makes exactly three
    external calls, in this order: the read of the session's history, the
    chain with the question and the history as it was stored (the new
    exchange is not in it), and the write of the extended history. *)
Theorem chat_external_calls env data cid q w :
  data !! "chat_id" = Some cid -> data !! "user_message" = Some q ->
  cid <> "" -> q <> "" ->
  retrieve_error env = None ->
  external_calls (emitted w (chat env (JObject data) w).2)
  = [EvRetrieve cid;
     EvInvoke q (stored w cid);
     EvStore cid (extended env q (stored w cid))].
Proof.
  intros Hc Hq Hcid Hmsg Hr.
  destruct (chat_valid_run env data cid q w Hc Hq Hcid Hmsg Hr) as (evs & -> & Hevs).
  simpl. erewrite emitted_eq by reflexivity. exact Hevs.
Qed.

Lemma chat_external_calls_witness :
  external_calls (emitted world1 (chat env_up (JObject (message "abc" "hello")) world1).2)
  = [EvRetrieve "abc";
     EvInvoke "hello" (stored world1 "abc");
     EvStore "abc" (extended env_up "hello" (stored world1 "abc"))].
Proof.
  apply (chat_external_calls env_up (message "abc" "hello") "abc" "hello" world1).
  - apply message_chat_id.
  - apply message_user_message.
  - discriminate.
  - discriminate.
  - reflexivity.
Defined.

(** X4.  The history [process_user_message] hands back has one entry more
    than the one it was given, up to the limit of fifty: it is never empty
    and never longer than fifty, and as long as the input has fewer than
    fifty entries every one of them is kept, in front of the new one. *)
Theorem process_user_message_length env cid q (h : list Exchange) w :
  exists ans updated w',
    process_user_message env cid q h w = (Ret (ans, updated), w') /\
    length updated = (S (length h) `min` 50)%nat /\
    (1 <= length updated <= 50)%nat /\
    ((length h < 50)%nat -> updated = (h ++ [mkExchange (now env) q ans])%list).
Proof.
  destruct (process_user_message_run env cid q h w) as (l1 & l2 & E & _).
  eexists _, _, _. split; [exact E|].
  unfold extended.
  assert (Hlen : length (py_slice_from (- HISTORY_LIMIT)
                           (h ++ [mkExchange (now env) q (reply env q h)]))
                 = (S (length h) `min` 50)%nat).
  { rewrite length_py_slice_from_limit, length_app. simpl. lia. }
  split; [exact Hlen|]. split; [lia|].
  intros Hlt. apply py_slice_from_limit_short.
  rewrite length_app. simpl. lia.
Qed.

(** What one request does to the store: nothing, or one write of a history
    within the limit.  This holds whether the view returns or raises. *)
Lemma handle_store env req w :
  exists out w',
    handle env req w = (out, w') /\
    (forall resp, out = Ret resp -> (length (history_of resp) <= 50)%nat) /\
    (db w' = db w \/
     exists cid (h : list Exchange),
       db w' = <[cid := h]> (db w) /\ (length h <= 50)%nat).
Proof.
  assert (Hext : forall e q (h : list Exchange), (length (extended e q h) <= 50)%nat).
  { intros e q h. unfold extended. rewrite length_py_slice_from_limit. lia. }
  destruct req as [|body]; simpl.
  - eexists _, _. split; [reflexivity|]. simpl.
    split; [intros resp [= <-]; simpl; lia|now left].
  - destruct (is_object body) eqn:Hobj.
    + destruct body as [| | | | | |data]; try discriminate Hobj.
      destruct (chat_cases env data w)
        as [[_ E]|[(cid & q & e & _ & _ & _ & _ & _ & E)
                  |(cid & q & evs & _ & _ & _ & _ & _ & E & _)]];
        rewrite E; eexists _, _; (split; [reflexivity|]); simpl.
      * split; [intros resp [= <-]; simpl; lia|now left].
      * split; [intros resp [= <-]; simpl; lia|now left].
      * split; [intros resp [= <-]; apply Hext|].
        destruct (store_error env); [now left|].
        right. eexists _, _. split; [reflexivity|apply Hext].
    + rewrite (chat_not_object env body w Hobj).
      eexists _, _. split; [reflexivity|].
      split; [intros resp [=]|now left].
Qed.

(** X5.  Over any list of requests, whatever their bodies and whatever fails
    on the way (the chain, the read, the write, a view that raises and is
    answered by the server's error page), there is one response per request;
    no response carries more than fifty exchanges; and if no stored history
    was longer than fifty before, none is afterwards. *)
Theorem serve_keeps_store_bounded reqs : forall w,
  bounded (db w) ->
  exists resps w',
    serve reqs w = (Ret resps, w') /\
    length resps = length reqs /\
    Forall (fun r => (length (history_of r) <= 50)%nat) resps /\
    bounded (db w').
Proof.
  induction reqs as [|[env req] rest IH]; intros w Hb.
  - exists [], w. repeat split; done.
  - destruct (handle_store env req w) as (out & w1 & E & Hresp & Hdb).
    assert (Hb1 : bounded (db w1)).
    { destruct Hdb as [->|(cid & h & -> & Hh)]; [done|].
      now apply map_Forall_insert_2. }
    destruct (IH w1 Hb1) as (resps & w' & Erest & Hl & Hall & Hb').
    rewrite serve_cons, E, Erest.
    destruct out as [resp|e]; eexists (_ :: resps), w';
      (split; [reflexivity|]); (split; [simpl; now rewrite Hl|]);
      (split; [|done]); constructor; try done.
    + now apply Hresp.
    + simpl. lia.
Qed.

Lemma serve_keeps_store_bounded_witness :
  exists resps w',
    serve [(env_up, PostChat (JObject (message "abc" "hello")));
           (env_up, PostChat JNull); (env_up, GetStartChat);
           (env_read_down, PostChat (JObject (message "abc" "again")))] world1
      = (Ret resps, w') /\
    length resps = 4%nat /\
    Forall (fun r => (length (history_of r) <= 50)%nat) resps /\
    bounded (db w').
Proof.
  apply (serve_keeps_store_bounded
           [(env_up, PostChat (JObject (message "abc" "hello")));
            (env_up, PostChat JNull); (env_up, GetStartChat);
            (env_read_down, PostChat (JObject (message "abc" "again")))] world1).
  apply map_Forall_singleton. simpl. lia.
Defined.

(** X6.  Requests that do not name a session (new-session requests, and
    messages to other sessions or with no session id) leave what is stored
    for that session exactly as it was, however many they are and however
    they end. *)
Theorem serve_other_sessions cid reqs : forall w,
  Forall (fun er => elsewhere cid er.2) reqs ->
  db (serve reqs w).2 !! cid = db w !! cid.
Proof.
  induction reqs as [|[env req] rest IH]; intros w Hall; [done|].
  apply Forall_cons in Hall as [Hreq Hrest]. simpl in Hreq.
  destruct (handle_store env req w) as (out & w1 & E & _).
  assert (Hstep : db w1 !! cid = db w !! cid).
  { destruct req as [|body]; simpl in E, Hreq.
    - unfold start_chat in E. now injection E as _ <-.
    - destruct (is_object body) eqn:Hobj.
      + destruct body as [| | | | | |data]; try discriminate Hobj.
        pose proof (chat_other_session env data cid w Hreq) as H.
        now rewrite E in H.
      + rewrite (chat_not_object env body w Hobj) in E. now injection E as _ <-. }
  rewrite serve_cons, E. specialize (IH w1 Hrest).
  destruct out as [resp|e];
    destruct (serve rest w1) as [[resps|e'] w2]; simpl in *; congruence.
Qed.

Lemma serve_other_sessions_witness :
  db (serve [(env_up, PostChat (JObject (message "xyz" "hello"))); (env_up, GetStartChat);
             (env_up, PostChat (JObject {["user_message" := "hello"]}))] world1).2 !! "abc"
  = db world1 !! "abc".
Proof.
  apply (serve_other_sessions "abc"
           [(env_up, PostChat (JObject (message "xyz" "hello"))); (env_up, GetStartChat);
            (env_up, PostChat (JObject {["user_message" := "hello"]}))] world1).
  repeat constructor; simpl.
  - rewrite message_chat_id. discriminate.
  - discriminate.
Defined.

(** X7.  A session that already has a history (of at most fifty entries)
    goes on where it was: after further operations that run to their end,
    what is stored is the old entries followed by the new ones, in order,
    cut down from the front to the last fifty. *)
Theorem continued_session_history cid (ops : list (Env * string)) w :
  cid <> "" ->
  (length (stored w cid) <= 50)%nat ->
  Forall goes_through ops ->
  exists resps w',
    let made := zip_with exchange_of ops resps in
    let total := (length (stored w cid) + length ops)%nat in
    serve (send_all cid ops) w = (Ret resps, w') /\
    stored w' cid = drop (total - 50) (stored w cid ++ made) /\
    length (stored w' cid) = (total `min` 50)%nat.
Proof.
  intros Hcid Hlen Hops.
  destruct (serve_send_all cid ops w Hcid Hlen Hops)
    as (resps & w' & E & Hl & _ & Hst & _).
  exists resps, w'. cbn zeta.
  assert (Hmade : length (stored w cid ++ zip_with exchange_of ops resps)
                  = (length (stored w cid) + length ops)%nat).
  { rewrite length_app, length_zip_with. lia. }
  rewrite py_slice_from_limit, Hmade in Hst.
  split; [exact E|]. split; [exact Hst|].
  rewrite Hst, length_drop, Hmade. lia.
Qed.

Lemma continued_session_history_witness :
  exists resps w',
    let ops := replicate 50 (env_up, "hello") in
    let made := zip_with exchange_of ops resps in
    let total := (length (stored world1 "abc") + length ops)%nat in
    serve (send_all "abc" ops) world1 = (Ret resps, w') /\
    stored w' "abc" = drop (total - 50) (stored world1 "abc" ++ made) /\
    length (stored w' "abc") = (total `min` 50)%nat.
Proof.
  apply (continued_session_history "abc" (replicate 50 (env_up, "hello")) world1).
  - discriminate.
  - vm_compute. lia.
  - apply Forall_replicate, goes_through_env_up. discriminate.
Defined.

(** X8.  When the chain responds, [generate_chatbot_response] hands the
    "answer" entry of the response through untouched and logs nothing; a
    response without that entry is treated like a failure of the chain: the
    [KeyError] is caught and logged, and the apology is returned.  Either
    way the store is not touched. *)
Theorem generate_chatbot_response_answer env q h w (response : gmap string string) :
  invoke env q h = Ret response ->
  generate_chatbot_response env q h w
  = match response !! "answer" with
    | Some a => (Ret a, mkWorld (db w) (trace w ++ [EvInvoke q h]))
    | None =>
        (Ret "Sorry, I encountered an error while processing your request.",
         mkWorld (db w)
           (trace w ++ [EvInvoke q h;
                        EvLog ERROR "Error generating chatbot response: 'answer'"]))
    end.
Proof.
  intros Hresp. run. rewrite Hresp. simpl.
  destruct (response !! "answer"); simpl; [done|].
  now rewrite <- app_assoc.
Qed.

Lemma generate_chatbot_response_answer_witness :
  generate_chatbot_response env_no_answer "hello" [] world0
  = (Ret "Sorry, I encountered an error while processing your request.",
     mkWorld (db world0)
       (trace world0 ++ [EvInvoke "hello" [];
                         EvLog ERROR "Error generating chatbot response: 'answer'"])).
Proof.
  exact (generate_chatbot_response_answer env_no_answer "hello" [] world0
           {["source_documents" := "none"]} eq_refl).
Defined.

(** ** Further properties of the module body *)

(** X9.  A credential that is set but empty is treated like one that is not
    set: the module body logs and raises the [ValueError] before any client
    is created, and the process serves no request. *)
Theorem run_process_rejects_empty_credentials boot reqs w :
  missing_or_empty (environ boot !! "SUPABASE_URL") \/
  missing_or_empty (environ boot !! "SUPABASE_KEY") ->
  run_process boot reqs w
  = (Raise (mkExn "ValueError"
              "Supabase URL and key are not set in the environment variables."),
     mkWorld (db w)
       (trace w ++ [EvLog ERROR
          "Supabase URL and key are not set in the environment variables."])).
Proof.
  intros Hbad.
  assert (Hnot : py_not (environ boot !! "SUPABASE_URL")
                 || py_not (environ boot !! "SUPABASE_KEY") = true).
  { apply orb_true_iff. destruct Hbad as [H|H]; [left|right]; now apply py_not_true. }
  unfold run_process, bind, startup. rewrite Hnot. reflexivity.
Qed.

Lemma run_process_rejects_empty_credentials_witness :
  run_process (mkBoot (<["SUPABASE_KEY" := ""]> (environ boot_ok)) None None None None)
    [(env_up, PostChat (JObject (message "abc" "hello")))] world0
  = (Raise (mkExn "ValueError"
              "Supabase URL and key are not set in the environment variables."),
     mkWorld (db world0)
       (trace world0 ++ [EvLog ERROR
          "Supabase URL and key are not set in the environment variables."])).
Proof.
  apply (run_process_rejects_empty_credentials
           (mkBoot (<["SUPABASE_KEY" := ""]> (environ boot_ok)) None None None None)
           [(env_up, PostChat (JObject (message "abc" "hello")))] world0).
  right. right. reflexivity.
Defined.

(** X10.  With both credentials set and not empty, the module body first
    creates the client with exactly these two values.  It then ends the way
    its collaborators let it: with the exception of the first one that fails
    (client, model, vector store, chain, in this order), raised unchanged, or
    normally when none fails.  The chat store is not touched either way, and
    requests are served only in the second case. *)
Theorem startup_outcome boot reqs w url key :
  environ boot !! "SUPABASE_URL" = Some url ->
  environ boot !! "SUPABASE_KEY" = Some key ->
  url <> "" -> key <> "" ->
  exists w',
    startup boot w
      = (match first_failure boot with Some e => Raise e | None => Ret tt end, w') /\
    head (emitted w w') = Some (EvCreateClient url key) /\
    db w' = db w /\
    run_process boot reqs w
      = match first_failure boot with
        | Some e => (Raise e, w')
        | None => serve reqs w'
        end.
Proof.
  intros Hurl Hkey Hu Hk.
  unfold run_process, bind at 1.
  unfold startup, load_model_at_import. rewrite Hurl, Hkey.
  cbn [py_not]. rewrite !bool_decide_eq_false_2 by done.
  unfold first_failure.
  destruct (create_client_error boot) as [e1|];
    destruct (ChatGroq_error boot) as [e2|];
    destruct (vector_store_error boot) as [e3|];
    destruct (from_llm_error boot) as [e4|];
    run; eexists; (split; [reflexivity|]);
    (split; [erewrite emitted_eq by (rewrite <- ?app_assoc; reflexivity);
             reflexivity|]);
    split; reflexivity.
Qed.

Lemma startup_outcome_witness :
  exists w',
    startup boot_ok world0
      = (match first_failure boot_ok with Some e => Raise e | None => Ret tt end, w') /\
    head (emitted world0 w') = Some (EvCreateClient "https://db.example" "secret") /\
    db w' = db world0 /\
    run_process boot_ok [(env_up, PostChat (JObject (message "abc" "hello")))] world0
      = match first_failure boot_ok with
        | Some e => (Raise e, w')
        | None => serve [(env_up, PostChat (JObject (message "abc" "hello")))] w'
        end.
Proof.
  apply (startup_outcome boot_ok [(env_up, PostChat (JObject (message "abc" "hello")))]
           world0 "https://db.example" "secret").
  - reflexivity.
  - reflexivity.
  - discriminate.
  - discriminate.
Defined.

(** X11.  When the model cannot be built, the failure is logged twice, once
    by [load_model] and once by the module body, each time with the text of
    the exception, and the same exception comes out; the vector store and
    the chain are never set up. *)
Theorem startup_model_failure boot w url key e :
  environ boot !! "SUPABASE_URL" = Some url ->
  environ boot !! "SUPABASE_KEY" = Some key ->
  url <> "" -> key <> "" ->
  create_client_error boot = None ->
  ChatGroq_error boot = Some e ->
  startup boot w
  = (Raise e,
     mkWorld (db w)
       (trace w ++ [EvCreateClient url key;
                    EvChatGroq;
                    EvLog ERROR ("Error loading model: " +:+ exn_str e);
                    EvLog ERROR ("Error initializing model or vector store: "
                                 +:+ exn_str e)])).
Proof.
  intros Hurl Hkey Hu Hk Hclient Hmodel.
  unfold startup, load_model_at_import. rewrite Hurl, Hkey.
  cbn [py_not]. rewrite !bool_decide_eq_false_2 by done.
  run. rewrite Hclient, Hmodel. simpl.
  now rewrite <- !app_assoc.
Qed.

Lemma startup_model_failure_witness :
  startup boot_no_model world0
  = (Raise boom,
     mkWorld (db world0)
       (trace world0 ++ [EvCreateClient "https://db.example" "secret";
                         EvChatGroq;
                         EvLog ERROR ("Error loading model: " +:+ exn_str boom);
                         EvLog ERROR ("Error initializing model or vector store: "
                                      +:+ exn_str boom)])).
Proof.
  apply (startup_model_failure boot_no_model world0 "https://db.example" "secret" boom).
  - reflexivity.
  - reflexivity.
  - discriminate.
  - discriminate.
  - reflexivity.
  - reflexivity.
Defined.

(** * Further properties of [load_model] under interleaving *)

Module LoadModelMore.
Import LoadModel LoadModelFacts.
Local Close Scope string_scope.
Local Open Scope nat_scope.

Lemma exec_app sched1 : forall sched2 s,
  exec (sched1 ++ sched2) s
  = ((exec sched1 s).1 ++ (exec sched2 (exec sched1 s).2).1,
     (exec sched2 (exec sched1 s).2).2).
Proof.
  induction sched1 as [|[c ctor] rest IH]; intros sched2 s.
  - simpl. now destruct (exec sched2 s).
  - rewrite <- app_comm_cons.
    destruct (step c ctor s) as [[a s']|] eqn:E.
    + rewrite !(exec_cons_Some _ _ _ _ _ _ E), IH. reflexivity.
    + rewrite !(exec_cons_None _ _ _ _ E). apply IH.
Qed.

Lemma holds_lock_holder s c p :
  inv s -> calls s !! c = Some p -> holds_lock p -> model_lock s = Some c.
Proof.
  intros (Hloc & _) Hp Hh. specialize (Hloc _ _ Hp).
  destruct p; simpl in *; try contradiction; tauto.
Qed.

Lemma lock_inv_init n : lock_inv (init n).
Proof. intros c Hc. discriminate Hc. Qed.

Lemma lock_inv_step c ctor s a s' :
  inv s -> lock_inv s -> step c ctor s = Some (a, s') -> lock_inv s'.
Proof.
  intros Hinv Hlock H c' Hc'.
  assert (Hlt : c < length (calls s)).
  { destruct (step_self _ _ _ _ _ H) as (p & _ & Hp & _).
    eapply lookup_lt_Some, Hp. }
  assert (Hkeep : model_lock s' = model_lock s -> c' <> c ->
                  exists p, calls s' !! c' = Some p /\ holds_lock p).
  { intros Heq Hne. rewrite (step_other _ _ _ _ _ _ H) by done.
    apply Hlock. congruence. }
  assert (Hmine : forall p, calls s !! c = Some p -> holds_lock p ->
                            model_lock s = Some c).
  { intros p. now apply holds_lock_holder. }
  destruct (decide (c' = c)) as [->|Hne].
  - step_cases H; simpl in *;
      rewrite ?list_lookup_insert_eq by done;
      try (eexists; split; [reflexivity|exact I]);
      try discriminate Hc';
      match goal with
      | Hpc : calls s !! c = Some _ |- _ =>
          destruct (Hlock _ Hc') as (p' & Hp' & Hh');
          rewrite Hpc in Hp'; injection Hp' as <-; contradiction
      end.
  - step_cases H; simpl in *;
      try (apply Hkeep; [reflexivity|done]);
      try discriminate Hc';
      try congruence.
Qed.

Lemma invs_exec sched : forall s,
  inv s -> lock_inv s -> inv (exec sched s).2 /\ lock_inv (exec sched s).2.
Proof.
  induction sched as [|[c ctor] rest IH]; intros s Hinv Hlock; [done|].
  destruct (step c ctor s) as [[a s']|] eqn:E.
  - rewrite (exec_cons_Some _ _ _ _ _ _ E). simpl.
    apply IH; [eapply inv_step|eapply lock_inv_step]; eauto.
  - rewrite (exec_cons_None _ _ _ _ E). now apply IH.
Qed.

Lemma invs_reachable n sched :
  inv (exec sched (init n)).2 /\ lock_inv (exec sched (init n)).2.
Proof. apply invs_exec; [apply inv_init|apply lock_inv_init]. Qed.

(** X12.  Mutual exclusion: however the calls interleave, at no moment are
    two of them inside the [with model_lock] block, and the one that is
    inside is the one recorded as holder of the lock. *)
Theorem mutual_exclusion n sched :
  let s := (exec sched (init n)).2 in
  forall c1 c2 p1 p2,
    calls s !! c1 = Some p1 -> calls s !! c2 = Some p2 ->
    holds_lock p1 -> holds_lock p2 ->
    c1 = c2 /\ model_lock s = Some c1.
Proof.
  intros s c1 c2 p1 p2 H1 H2 Hh1 Hh2.
  destruct (invs_reachable n sched) as [Hinv _]. fold s in Hinv.
  pose proof (holds_lock_holder s c1 p1 Hinv H1 Hh1) as E1.
  pose proof (holds_lock_holder s c2 p2 Hinv H2 Hh2) as E2.
  split; [congruence|done].
Qed.

Lemma mutual_exclusion_witness :
  0 = 0 /\
  model_lock (exec [(0, None); (0, None); (1, None); (1, None)] (init 2)).2 = Some 0.
Proof.
  apply (mutual_exclusion 2 [(0, None); (0, None); (1, None); (1, None)]
           0 0 AtRecheck AtRecheck).
  - reflexivity.
  - reflexivity.
  - exact I.
  - exact I.
Defined.

Lemma unfinished_call (l : list pc) :
  Forall finished l \/ exists c p, l !! c = Some p /\ ~ finished p.
Proof.
  induction l as [|p l [IH|(c & p' & Hp' & Hnf)]].
  - left. constructor.
  - destruct p; try (left; constructor; [exact I|exact IH]);
      right; eexists 0, _; (split; [reflexivity|intros []]).
  - right. exists (S c), p'. done.
Qed.

(** X13.  No deadlock: in every state the calls can get into, either every
    call is over (it has returned or raised) or some call can take a step.
    A call waiting for the lock is never stuck for good, because the holder
    of the lock can always move on. *)
Theorem no_deadlock n sched :
  let s := (exec sched (init n)).2 in
  Forall finished (calls s) \/
  exists c a s', step c None s = Some (a, s').
Proof.
  intros s. destruct (invs_reachable n sched) as [Hinv Hlock]. fold s in Hinv, Hlock.
  destruct (unfinished_call (calls s)) as [Hall|(c & p & Hp & Hnf)]; [now left|].
  right.
  assert (Hmove : forall c' p', calls s !! c' = Some p' -> ~ finished p' ->
                                p' <> AtAcquire ->
                                exists a s', step c' None s = Some (a, s')).
  { intros c' p' Hp' Hnf' Hna. unfold step. rewrite Hp'.
    destruct p'; simpl in Hnf'; try tauto; try congruence;
      try destruct (model s); eauto. }
  assert (Hcase : p = AtAcquire \/ p <> AtAcquire)
    by (destruct p; solve [left; reflexivity | right; discriminate]).
  destruct Hcase as [->|Hna].
  - destruct (model_lock s) as [holder|] eqn:Hl.
    + destruct (Hlock _ Hl) as (p' & Hp' & Hh').
      exists holder. apply (Hmove holder p' Hp').
      * destruct p'; simpl in Hh'; try contradiction; intros [].
      * intros ->. contradiction.
    + exists c. unfold step. rewrite Hp, Hl. eauto.
  - exists c. now apply (Hmove c p).
Qed.

(** X14.  No lock is left behind: once every call is over, whether it
    returned or raised, the lock is free. *)
Theorem lock_free_at_end n sched :
  let s := (exec sched (init n)).2 in
  Forall finished (calls s) -> model_lock s = None.
Proof.
  intros s Hall. destruct (invs_reachable n sched) as [_ Hlock]. fold s in Hlock.
  destruct (model_lock s) as [c|] eqn:Hl; [|done].
  destruct (Hlock _ Hl) as (p & Hp & Hh).
  rewrite Forall_forall in Hall.
  assert (Hf : finished p) by (apply Hall; eapply list_elem_of_lookup_2, Hp).
  destruct p; simpl in *; contradiction.
Qed.

Lemma lock_free_at_end_witness :
  model_lock (exec busy (init 2)).2 = None.
Proof.
  apply (lock_free_at_end 2 busy).
  vm_compute. repeat constructor.
Defined.




Lemma step_keeps_model c ctor s a s' h :
  inv s -> step c ctor s = Some (a, s') -> model s = Some h -> model s' = Some h.
Proof.
  intros (Hloc & _) H Hm.
  step_cases H; simpl; try done; try congruence.
  match goal with
  | Hpc : calls s !! c = Some (AtAssign _) |- _ =>
      destruct (Hloc _ _ Hpc) as (_ & Hnone & _)
  end.
  congruence.
Qed.

Lemma exec_keeps_model sched : forall s h,
  inv s -> model s = Some h -> model (exec sched s).2 = Some h.
Proof.
  induction sched as [|[c ctor] rest IH]; intros s h Hinv Hm; [done|].
  destruct (step c ctor s) as [[a s']|] eqn:E.
  - rewrite (exec_cons_Some _ _ _ _ _ _ E). simpl.
    apply IH; [eapply inv_step|eapply step_keeps_model]; eauto.
  - rewrite (exec_cons_None _ _ _ _ E). now apply IH.
Qed.

(** X16.  Once the global is bound to a handle it stays bound to that
    handle: whatever the calls do afterwards, it is neither reset to [None]
    nor bound to another object. *)
Theorem model_never_rebound n sched later h :
  model (exec sched (init n)).2 = Some h ->
  model (exec (sched ++ later) (init n)).2 = Some h.
Proof.
  intros Hm. rewrite exec_app. simpl.
  apply exec_keeps_model; [|done].
  apply invs_reachable.
Qed.

Lemma model_never_rebound_witness :
  model (exec (race ++ busy) (init 4)).2 = Some 0.
Proof.
  apply (model_never_rebound 4 race busy 0).
  reflexivity.
Defined.

Lemma exec_step c ctor rest s a s' :
  step c ctor s = Some (a, s') ->
  (exec ((c, ctor) :: rest) s).2 = (exec rest s').2.
Proof. intros E. now rewrite (exec_cons_Some _ _ _ _ _ _ E). Qed.

Lemma exec_skip c ctor rest s :
  step c ctor s = None -> (exec ((c, ctor) :: rest) s).2 = (exec rest s).2.
Proof. intros E. now rewrite (exec_cons_None _ _ _ _ E). Qed.

Ltac take_step Hlt :=
  erewrite exec_step
    by (unfold step; simpl;
        rewrite list_lookup_insert_eq by (rewrite ?length_insert; exact Hlt);
        reflexivity);
  unfold goto at 1; cbn [model model_lock constructed calls];
  rewrite ?list_insert_insert_eq.

(** The first call, alone: it tests, locks, tests again, builds, binds,
    unlocks and returns the new handle. *)
Lemma run_alone_first (l : list pc) c :
  l !! c = Some AtCheck ->
  (exec (run_alone c) (mkState None None 0 l)).2
  = mkState (Some 0) None 1 (<[c := Returned (Some 0)]> l).
Proof.
  intros Hc.
  assert (Hlt : c < length l) by (eapply lookup_lt_Some, Hc).
  unfold run_alone. cbn [replicate].
  erewrite exec_step by (unfold step; simpl; rewrite Hc; reflexivity).
  unfold goto at 1. cbn [model model_lock constructed calls].
  do 6 take_step Hlt.
  reflexivity.
Qed.

(** A later call, alone: it finds the handle at the first test and returns
    it; the lock and the count of objects built are as before. *)
Lemma run_alone_cached (l : list pc) c h k :
  l !! c = Some AtCheck ->
  (exec (run_alone c) (mkState (Some h) None k l)).2
  = mkState (Some h) None k (<[c := Returned (Some h)]> l).
Proof.
  intros Hc.
  assert (Hlt : c < length l) by (eapply lookup_lt_Some, Hc).
  unfold run_alone. cbn [replicate].
  erewrite exec_step by (unfold step; simpl; rewrite Hc; reflexivity).
  unfold goto at 1. cbn [model model_lock constructed calls].
  take_step Hlt.
  do 5 (erewrite exec_skip
          by (unfold step; simpl;
              rewrite list_lookup_insert_eq by exact Hlt; reflexivity)).
  reflexivity.
Qed.

Lemma one_by_one_from m : forall k,
  (exec (flat_map run_alone (seq k m))
        (mkState (Some 0) None 1
           (replicate k (Returned (Some 0)) ++ replicate m AtCheck))).2
  = mkState (Some 0) None 1 (replicate (k + m) (Returned (Some 0))).
Proof.
  induction m as [|m IH]; intros k.
  - simpl. now rewrite app_nil_r, Nat.add_0_r.
  - cbn [seq flat_map]. rewrite exec_app. cbn [snd].
    rewrite run_alone_cached.
    + cbn [replicate].
      rewrite (insert_app_r_alt _ _ k) by (rewrite length_replicate; lia).
      rewrite length_replicate, Nat.sub_diag. cbn [insert list_insert].
      rewrite cons_middle, app_assoc, <- replicate_S_end.
      rewrite IH. f_equal. f_equal. lia.
    + cbn [replicate]. apply list_lookup_middle. now rewrite length_replicate.
Qed.

(** X17.  Calls made one after the other, as a single thread makes them:
    the first one builds the handle, every later one gets that same handle
    from the global without building anything, and when all have returned
    the lock is free and exactly one object has been built. *)
Theorem one_by_one_builds_once n :
  (exec (one_by_one (S n)) (init (S n))).2
  = mkState (Some 0) None 1 (replicate (S n) (Returned (Some 0))).
Proof.
  unfold one_by_one, init. cbn [seq flat_map]. rewrite exec_app. cbn [snd].
  rewrite run_alone_first by reflexivity.
  cbn [replicate insert list_insert].
  exact (one_by_one_from n 1).
Qed.

End LoadModelMore.
